(** * aiogram_dialog.context.storage: the [StorageProxy]

    A shallow embedding of [src/aiogram_dialog/context/storage.py] and the
    properties of its load/save operations, state resolution, access-settings
    marshaling and key construction.

    Python objects are modelled dynamically: a value is a [Value], a [dict]
    is a [gmap string Value], an object is its attribute dictionary living in
    a heap, and the coroutines of the proxy are computations in a small
    state-and-exception monad over the heap, the key-value store and the trace
    of store calls. *)

From Stdlib Require Import Ascii String ZArith.
From stdpp Require Import gmap strings list fin_maps.

Local Set Warnings "-register-all".
Local Open Scope string_scope.
Local Open Scope Z_scope.
Local Open Scope list_scope.

(** ** Values *)

(** [aiogram.enums.ChatMemberStatus]: a closed enumeration whose members carry
    string literals. *)
Inductive ChatMemberStatus : Type :=
| CREATOR
| ADMINISTRATOR
| MEMBER
| RESTRICTED
| LEFT
| KICKED.

(** [aiogram.fsm.state.State]: [state] is the textual identifier exposed by
    the [.state] property; [state_obj] stands for the identity of the object,
    so that two distinct objects with one identifier can be told apart. *)
Record State : Type := mkState { state_obj : nat; state : string }.

(** A [StatesGroup] class, reduced to what the proxy reads from it: the tuple
    [__all_states__], in declaration order. *)
Record StatesGroup : Type := mkGroup { all_states : list State }.

(** Modelled from the spec: the [AccessSettings] dataclass of
    [aiogram_dialog.api.entities] (not in src/), an object with the three
    attributes [user_ids], [member_status] and [custom]. The attributes are
    dynamically typed, so each slot holds a value of type [V]. *)
Record AccessSettingsOf (V : Type) : Type := mkAccess {
  user_ids : V;
  member_status : V;
  custom : V;
}.
Arguments mkAccess {V} _ _ _.
Arguments user_ids {V} _.
Arguments member_status {V} _.
Arguments custom {V} _.

Inductive Value : Type :=
| VNone
| VBool (b : bool)
| VInt (n : Z)
| VStr (s : string)
| VList (l : list Value)
| VDict (d : gmap string Value)
| VState (s : State)
| VStatus (m : ChatMemberStatus)
| VAccess (a : AccessSettingsOf Value).

Abbreviation Dict := (gmap string Value).
Abbreviation AccessSettings := (AccessSettingsOf Value).

(** Python truthiness, as tested by [not x] and [x or y]. [State],
    [AccessSettings] and the other dataclasses define neither [__bool__] nor
    [__len__]; the members of [ChatMemberStatus] are non-empty strings. *)
Definition truthy (v : Value) : bool :=
  match v with
  | VNone => false
  | VBool b => b
  | VInt n => negb (n =? 0)
  | VStr s => negb (String.eqb s "")
  | VList l => match l with [] => false | _ => true end
  | VDict d => negb (bool_decide (d = ∅))
  | VState _ => true
  | VStatus _ => true
  | VAccess _ => true
  end.

(** ** Exceptions and results *)

Inductive Exn : Type :=
| UnknownIntent (msg : string)
| UnknownState (msg : string)
| KeyError (key : string)
| ValueError (v : Value)
| AttributeError (name : string)
| TypeError.

Inductive Result (A : Type) : Type :=
| Ok (a : A)
| Raise (e : Exn).
Arguments Ok {A} _.
Arguments Raise {A} _.

(** ** State resolution *)

(** [s.partition(sep)] for a one-character separator: the text before the
    first occurrence, whether the separator was found, and the text after it. *)
Fixpoint partition (sep : Ascii.ascii) (s : string) : string * bool * string :=
  match s with
  | EmptyString => ("", false, "")
  | String c rest =>
      if Ascii.eqb c sep then ("", true, rest)
      else let '(before, found, after) := partition sep rest in
           (String c before, found, after)
  end.

Definition colon : Ascii.ascii := ":"%char.

(** [group, *_ = state.partition(":")] *)
Definition group_of (text : string) : string := (partition colon text).1.1.

(** The [for] loop of [_state]: the first member whose identifier is the
    text, in declaration order. *)
Fixpoint scan_states (text : string) (l : list State) : option State :=
  match l with
  | [] => None
  | real_state :: rest =>
      if String.eqb (state real_state) text then Some real_state
      else scan_states text rest
  end.

Definition _state (state_groups : gmap string StatesGroup) (text : string)
  : Result State :=
  let group := group_of text in
  match state_groups !! group with
  | None => Raise (UnknownState ("Unknown state group " +:+ group))
  | Some g =>
      match scan_states text (all_states g) with
      | Some real_state => Ok real_state
      | None => Raise (UnknownState ("Unknown state " +:+ text))
      end
  end.

(** ** Access settings *)

Definition status_value (m : ChatMemberStatus) : string :=
  match m with
  | CREATOR => "creator"
  | ADMINISTRATOR => "administrator"
  | MEMBER => "member"
  | RESTRICTED => "restricted"
  | LEFT => "left"
  | KICKED => "kicked"
  end.

Definition all_statuses : list ChatMemberStatus :=
  [CREATOR; ADMINISTRATOR; MEMBER; RESTRICTED; LEFT; KICKED].

(** The call [ChatMemberStatus(raw)]: lookup of a member by its value. A
    member is accepted as its own value; anything that is not the literal of a
    member raises [ValueError]. *)
Definition ChatMemberStatus_call (raw : Value) : Result ChatMemberStatus :=
  match raw with
  | VStatus m => Ok m
  | VStr s =>
      match List.find (λ m, String.eqb (status_value m) s) all_statuses with
      | Some m => Ok m
      | None => Raise (ValueError raw)
      end
  | _ => Raise (ValueError raw)
  end.

(** [d.get(key)] *)
Definition dict_get (d : Dict) (key : string) : Value := default VNone (d !! key).

(** [x or y] *)
Definition py_or (x y : Value) : Value := if truthy x then x else y.

Definition _parse_access_settings (raw : Value) : Result Value :=
  if negb (truthy raw) then Ok VNone
  else match raw with
       | VDict d =>
           let raw_member_status := dict_get d "member_status" in
           let build ms :=
             Ok (VAccess (mkAccess (py_or (dict_get d "user_ids") (VList []))
                                   ms
                                   (dict_get d "custom"))) in
           if truthy raw_member_status then
             match ChatMemberStatus_call raw_member_status with
             | Ok m => build (VStatus m)
             | Raise e => Raise e
             end
           else build VNone
       | _ => Raise (AttributeError "get")
       end.

Definition _dump_access_settings (access_settings : Value) : Result Value :=
  if negb (truthy access_settings) then Ok VNone
  else match access_settings with
       | VAccess a =>
           Ok (VDict (<["user_ids" := user_ids a]>
                     (<["member_status" := member_status a]>
                     (<["custom" := custom a]> ∅))))
       | _ => Raise (AttributeError "user_ids")
       end.

(** ** Storage keys *)

(** [aiogram.fsm.storage.base.StorageKey], with the five parts the proxy
    fills in. *)
Module Key.
Record t : Type := mk {
  bot_id : Z;
  chat_id : Z;
  user_id : Z;
  thread_id : option Z;
  destiny : string;
}.
End Key.
Abbreviation StorageKey := Key.t.

Global Instance StorageKey_eq_dec : EqDecision StorageKey.
Proof. solve_decision. Defined.

Module Bot.
Record t : Type := mk { id : Z }.
End Bot.

(** The configuration held by a [StorageProxy]; the [storage] handle is the
    store component of the world the operations run in. *)
Record StorageProxy : Type := mkProxy {
  state_groups : gmap string StatesGroup;
  user_id : Z;
  chat_id : Z;
  thread_id : option Z;
  chat_type : string;
  bot : Bot.t;
}.

Definition _context_key (self : StorageProxy) (intent_id : string) : StorageKey :=
  Key.mk (Bot.id (bot self)) (chat_id self) (user_id self) (thread_id self)
         ("aiogd:context:" +:+ intent_id).

Definition _stack_key (self : StorageProxy) (stack_id : string) : StorageKey :=
  Key.mk (Bot.id (bot self)) (chat_id self) (user_id self) (thread_id self)
         ("aiogd:stack:" +:+ stack_id).

(** ** The world: heap, store and trace *)

(** [aiogram.fsm.storage.base.BaseStorage], the two calls the proxy makes.
    [get_data] hands out a mapping of its own (an empty one when nothing is
    stored under the key), so the caller may update it freely. *)
Class BaseStorage (S : Type) : Type := {
  get_data : S → StorageKey → Dict;
  set_data : S → StorageKey → Dict → S;
}.

(** The store contract: a mapping is persisted and returned verbatim. *)
Class VerbatimStorage (S : Type) `{!BaseStorage S} : Prop := {
  get_set_same : ∀ (s : S) k d, get_data (set_data s k d) k = d;
  get_set_other : ∀ (s : S) k k' d, k ≠ k' → get_data (set_data s k d) k' = get_data s k';
}.

(** A store kept in memory: the writes, most recent first. *)
Definition MemoryStorage : Type := list (StorageKey * Dict).

Fixpoint memory_get (s : MemoryStorage) (k : StorageKey) : Dict :=
  match s with
  | [] => ∅
  | (k', d) :: rest => if decide (k' = k) then d else memory_get rest k
  end.

Global Instance MemoryStorage_storage : BaseStorage MemoryStorage := {
  get_data := memory_get;
  set_data s k d := (k, d) :: s;
}.

Inductive Event : Type :=
| EvGet (key : StorageKey)
| EvSet (key : StorageKey) (data : Dict).

(** Objects and dictionaries live in [heap] and are referred to by their
    index; an object is represented by its attribute dictionary, which is
    what [vars] returns. *)
Record World (S : Type) : Type := mkWorld {
  heap : list Dict;
  storage : S;
  trace : list Event;
}.
Arguments mkWorld {S} _ _ _.
Arguments heap {S} _.
Arguments storage {S} _.
Arguments trace {S} _.

Definition M (S A : Type) : Type := World S → Result A * World S.

Global Instance M_ret {S} : MRet (M S) := λ A a w, (Ok a, w).
Global Instance M_bind {S} : MBind (M S) := λ A B f m w,
  match m w with
  | (Ok a, w') => f a w'
  | (Raise e, w') => (Raise e, w')
  end.

Definition raise {S A} (e : Exn) : M S A := λ w, (Raise e, w).

Definition lift {S A} (r : Result A) : M S A := λ w, (r, w).

Section Primitives.
Context {S : Type} `{!BaseStorage S}.

(** [await self.storage.get_data(key=key)] *)
Definition storage_get (key : StorageKey) : M S Dict := λ w,
  (Ok (get_data (storage w) key),
   mkWorld (heap w) (storage w) (trace w ++ [EvGet key])).

(** [await self.storage.set_data(key=key, data=data)] *)
Definition storage_set (key : StorageKey) (data : Dict) : M S unit := λ w,
  (Ok (), mkWorld (heap w) (set_data (storage w) key data) (trace w ++ [EvSet key data])).

(** The contents of the dictionary at a reference. *)
Definition deref (l : nat) : M S Dict := λ w,
  match heap w !! l with
  | Some d => (Ok d, w)
  | None => (Raise TypeError, w)
  end.

(** A new dictionary (or object) with the given contents. *)
Definition alloc (d : Dict) : M S nat := λ w,
  (Ok (length (heap w)), mkWorld (heap w ++ [d]) (storage w) (trace w)).

(** [vars(o)]: the attribute dictionary of the object, not a copy of it. *)
Definition vars (o : nat) : M S nat :=
  deref o ;; mret o.

(** [copy(d)]: a shallow copy, a new dictionary with the same bindings. *)
Definition copy (l : nat) : M S nat :=
  d ← deref l; alloc d.

(** [d[key]] *)
Definition dict_getitem (l : nat) (key : string) : M S Value :=
  d ← deref l;
  match d !! key with
  | Some v => mret v
  | None => raise (KeyError key)
  end.

(** [d[key] = v] *)
Definition dict_setitem (l : nat) (key : string) (v : Value) : M S unit := λ w,
  match heap w !! l with
  | Some d => (Ok (), mkWorld (<[l := <[key := v]> d]> (heap w)) (storage w) (trace w))
  | None => (Raise TypeError, w)
  end.

(** [o.name] *)
Definition getattr (o : nat) (name : string) : M S Value :=
  d ← deref o;
  match d !! name with
  | Some v => mret v
  | None => raise (AttributeError name)
  end.

(** The [.state] property of a [State] object. *)
Definition State_state (v : Value) : M S string :=
  match v with
  | VState s => mret (state s)
  | _ => raise (AttributeError "state")
  end.

(** An entity id, as interpolated into the destiny of a key; ids are
    strings. *)
Definition id_text (v : Value) : M S string :=
  match v with
  | VStr s => mret s
  | _ => raise TypeError
  end.

End Primitives.

(** ** Entities *)

Section Entities.
Context {S : Type} `{!BaseStorage S}.

(** Modelled from the spec: the [Context] dataclass of
    [aiogram_dialog.api.entities] (not in src/). Its constructor stores the
    keyword arguments as the attributes of a new object; the [id] property
    reads the intent id attribute. *)
Definition Context_new (kwargs : Dict) : M S nat := alloc kwargs.

Definition Context_id (context : nat) : M S string :=
  v ← getattr context "_intent_id"; id_text v.

(** Modelled from the spec: the [Stack] dataclass of
    [aiogram_dialog.api.entities] (not in src/): an id, the history of
    intents, an optional last message id and optional access settings. A
    stack built from its id alone has no history, no last message id and no
    access settings. [empty()] tells whether the history is empty. *)
Definition Stack_defaults : Dict :=
  <["intents" := VList []]>
  (<["last_message_id" := VNone]>
  (<["access_settings" := VNone]> ∅)).

Definition Stack_new (kwargs : Dict) : M S nat := alloc (kwargs ∪ Stack_defaults).

Definition Stack_id (stack : nat) : M S string :=
  v ← getattr stack "_id"; id_text v.

Definition Stack_empty (stack : nat) : M S bool :=
  v ← getattr stack "intents"; mret (negb (truthy v)).

End Entities.

(** ** The operations of the proxy *)

Section Proxy.
Context {S : Type} `{!BaseStorage S}.
Variable self : StorageProxy.

Definition load_context (intent_id : string) : M S nat :=
  data ← storage_get (_context_key self intent_id);
  if bool_decide (data = ∅) then
    raise (UnknownIntent ("Context not found for intent id: " +:+ intent_id))
  else
    match data !! "state" with
    | None => raise (KeyError "state")
    | Some (VStr text) =>
        real_state ← lift (_state (state_groups self) text);
        Context_new (<["state" := VState real_state]> data)
    | Some _ => raise (AttributeError "partition")
    end.

Definition load_stack (stack_id : string) : M S nat :=
  data ← storage_get (_stack_key self stack_id);
  if bool_decide (data = ∅) then
    Stack_new {["_id" := VStr stack_id]}
  else
    match data !! "access_settings" with
    | None => raise (KeyError "access_settings")
    | Some raw =>
        access_settings ← lift (_parse_access_settings raw);
        Stack_new (<["access_settings" := access_settings]>
                     (delete "access_settings" data))
    end.

Definition save_context (context : option nat) : M S unit :=
  match context with
  | None => mret ()
  | Some c =>
      o ← vars c;
      data ← copy o;
      st ← dict_getitem data "state";
      text ← State_state st;
      dict_setitem data "state" (VStr text) ;;
      i ← Context_id c;
      d ← deref data;
      storage_set (_context_key self i) d
  end.

Definition remove_context (intent_id : string) : M S unit :=
  storage_set (_context_key self intent_id) ∅.

Definition remove_stack (stack_id : string) : M S unit :=
  storage_set (_stack_key self stack_id) ∅.

Definition save_stack (stack : option nat) : M S unit :=
  match stack with
  | None => mret ()
  | Some s =>
      e ← Stack_empty s;
      logically_absent ←
        (if e : bool then v ← getattr s "last_message_id"; mret (negb (truthy v))
         else mret false);
      if logically_absent : bool then
        i ← Stack_id s;
        storage_set (_stack_key self i) ∅
      else
        o ← vars s;
        data ← copy o;
        a ← getattr s "access_settings";
        dumped ← lift (_dump_access_settings a);
        dict_setitem data "access_settings" dumped ;;
        i ← Stack_id s;
        d ← deref data;
        storage_set (_stack_key self i) d
  end.

End Proxy.

(** ** Concrete runs *)

Definition stateA : State := mkState 0 "Main:step1".
Definition stateB : State := mkState 1 "Main:step2".
Definition registry : gmap string StatesGroup :=
  {["Main" := mkGroup [stateA; stateB]]}.

Definition proxy0 : StorageProxy :=
  mkProxy registry 42 (-100) (Some 7) "supergroup" (Bot.mk 1).

Definition ctx0 : Dict :=
  <["_intent_id" := VStr "i1"]>
  (<["_stack_id" := VStr ""]>
  (<["state" := VState stateB]>
  (<["start_data" := VNone]>
  (<["dialog_data" := VDict (<["n" := VInt 3]> ∅)]> ∅)))).

Definition world0 : World MemoryStorage := mkWorld [ctx0] [] [].

(** ** Validity of entities *)

(** A state is the registry's canonical instance for its identifier when it
    is declared in the group named by that identifier and no member declared
    before it carries the same identifier. *)
Definition canonical (sg : gmap string StatesGroup) (s : State) : Prop :=
  ∃ g pre post,
    sg !! group_of (state s) = Some g ∧
    all_states g = pre ++ s :: post ∧
    Forall (λ r, state r ≠ state s) pre.

(** The [access_settings] attribute of a well-typed stack: [None], or an
    [AccessSettings] whose [user_ids] is a list and whose [member_status] is
    [None] or a member of the enumeration. *)
Definition valid_access (a : Value) : Prop :=
  a = VNone ∨
  ∃ l ms cu, a = VAccess (mkAccess (VList l) ms cu) ∧
             (ms = VNone ∨ ∃ m, ms = VStatus m).

(** The fresh stack of a given id: only the id is set. *)
Definition fresh_stack (stack_id : string) : Dict :=
  <["_id" := VStr stack_id]> Stack_defaults.

(** ** More concrete entities *)

Definition admins : Value :=
  VAccess (mkAccess (VList [VInt 1; VInt 2]) (VStatus ADMINISTRATOR) VNone).

Definition make_stack (stack_id : string) (intents last_message_id access : Value)
  : Dict :=
  <["_id" := VStr stack_id]>
  (<["intents" := intents]>
  (<["last_message_id" := last_message_id]>
  (<["access_settings" := access]> ∅))).

(** A stack with one intent, a last message and access settings. *)
Definition stack_busy : Dict := make_stack "s" (VList [VStr "i1"]) (VInt 10) admins.

(** A stack without history and without last message, carrying access
    settings. *)
Definition stack_idle : Dict := make_stack "s" (VList []) VNone admins.

(** A stack without history whose last message id is [0]. *)
Definition stack_zero : Dict := make_stack "s" (VList []) (VInt 0) VNone.

(** A stack without history whose last message id is [0], carrying access
    settings. *)
Definition stack_zero_admins : Dict := make_stack "s" (VList []) (VInt 0) admins.

Definition world_of (d : Dict) : World MemoryStorage := mkWorld [d] [] [].

(** A stored stack record written without the [access_settings] field. *)
Definition legacy_record : Dict :=
  <["_id" := VStr "s"]> (<["intents" := VList [VStr "i1"]]> ∅).

Definition world_legacy : World MemoryStorage :=
  mkWorld [] [(_stack_key proxy0 "s", legacy_record)] [].

(** ** Stored records and further entities *)

(** A stored context record whose state text resolves. *)
Definition record_i1 : Dict :=
  <["_intent_id" := VStr "i1"]> (<["state" := VStr "Main:step1"]> ∅).

Definition world_stored : World MemoryStorage :=
  mkWorld [] [(_context_key proxy0 "i1", record_i1)] [].

(** A stored context record whose state is not in the registry any more. *)
Definition record_stale : Dict :=
  <["_intent_id" := VStr "i9"]> (<["state" := VStr "Main:step9"]> ∅).

Definition world_stale : World MemoryStorage :=
  mkWorld [] [(_context_key proxy0 "i9", record_stale)] [].

(** A stored stack record whose member status is not a literal of the
    enumeration. *)
Definition bad_settings : Value :=
  VDict (<["member_status" := VStr "owner"]> ∅).

Definition record_bad_status : Dict :=
  <["_id" := VStr "s"]> (<["access_settings" := bad_settings]> ∅).

Definition world_bad_status : World MemoryStorage :=
  mkWorld [] [(_stack_key proxy0 "s", record_bad_status)] [].

(** A registry with two state objects carrying one identifier, and a context
    holding the second of them. *)
Definition stateA2 : State := mkState 2 "Main:step1".

Definition registry_dup : gmap string StatesGroup :=
  {["Main" := mkGroup [stateA; stateA2]]}.

Definition proxy_dup : StorageProxy :=
  mkProxy registry_dup 42 (-100) (Some 7) "supergroup" (Bot.mk 1).

Definition ctx_dup : Dict :=
  <["_intent_id" := VStr "i1"]> (<["state" := VState stateA2]> ∅).

(** A character occurs in a text. *)
Fixpoint occurs (c : Ascii.ascii) (s : string) : bool :=
  match s with
  | EmptyString => false
  | String c' rest => Ascii.eqb c' c || occurs c rest
  end.

(** ** Stepping through the operations *)

Ltac unfold_ops :=
  unfold load_context, load_stack, save_context, save_stack, remove_context,
    remove_stack, Context_new, Context_id, Stack_new, Stack_id, Stack_empty,
    vars, copy, dict_getitem, dict_setitem, getattr, id_text, State_state,
    deref, alloc, storage_get, storage_set, raise, lift,
    mbind, M_bind, mret, M_ret.

(** ** Properties of state resolution *)

Lemma partition_spec sep s :
  let '(before, found, after) := partition sep s in
  occurs sep before = false ∧
  if found then s = before +:+ String sep after
  else s = before ∧ after = "".
Proof.
  induction s as [|c rest IH]; simpl; [done|].
  destruct (Ascii.eqb c sep) eqn:Hc.
  - apply Ascii.eqb_eq in Hc as ->. done.
  - destruct (partition sep rest) as [[before found] after]. simpl.
    rewrite Hc. destruct IH as [Hocc IH]. split; [done|].
    destruct found; [by rewrite IH at 1|].
    destruct IH as [-> ->]. done.
Qed.

Lemma group_of_spec text :
  occurs colon (group_of text) = false ∧
  (text = group_of text ∨ ∃ rest, text = group_of text +:+ String colon rest).
Proof.
  unfold group_of. pose proof (partition_spec colon text) as Hp.
  destruct (partition colon text) as [[before found] after]. simpl.
  destruct Hp as [Hocc Hp]. split; [done|].
  destruct found; [right; by exists after | left; by destruct Hp].
Qed.

Lemma scan_states_Some text l s :
  scan_states text l = Some s ↔
  ∃ pre post, l = pre ++ s :: post ∧ state s = text ∧
              Forall (λ r, state r ≠ text) pre.
Proof.
  induction l as [|r l IH]; simpl.
  - split; [done|]. intros (pre & post & Hl & _). by destruct pre.
  - destruct (String.eqb (state r) text) eqn:Hr.
    + apply String.eqb_eq in Hr. split.
      * intros [= ->]. by exists [], l.
      * intros (pre & post & Hl & Hs & Hpre). destruct pre as [|r' pre].
        -- by injection Hl as ->.
        -- injection Hl as -> _. by apply Forall_cons_1 in Hpre as [? _].
    + apply String.eqb_neq in Hr. rewrite IH. split.
      * intros (pre & post & -> & Hs & Hpre). exists (r :: pre), post.
        split_and!; [done..|]. by constructor.
      * intros (pre & post & Hl & Hs & Hpre). destruct pre as [|r' pre].
        -- injection Hl as ->. done.
        -- injection Hl as -> ->. apply Forall_cons_1 in Hpre as [_ Hpre].
           by exists pre, post.
Qed.

Lemma scan_states_None text l :
  scan_states text l = None ↔ Forall (λ r, state r ≠ text) l.
Proof.
  induction l as [|r l IH]; simpl; [done|].
  destruct (String.eqb (state r) text) eqn:Hr.
  - apply String.eqb_eq in Hr. split; [done|].
    intros [? _]%Forall_cons_1. done.
  - apply String.eqb_neq in Hr. rewrite IH. split.
    + by constructor.
    + by intros [_ ?]%Forall_cons_1.
Qed.

(** C3. State resolution takes the text before the first ":" as the group
    name. An unregistered group fails with [UnknownState] naming the group.
    For a registered group the members are scanned in declared order and the
    first one whose identifier is exactly the input is returned; whatever is
    returned is a member of that group's list, the registry's own instance.
    When no member matches it fails with [UnknownState] naming the full
    identifier. *)
Theorem _state_resolution (sg : gmap string StatesGroup) (text : string) :
  (occurs colon (group_of text) = false ∧
   (text = group_of text ∨ ∃ rest, text = group_of text +:+ String colon rest)) ∧
  (sg !! group_of text = None →
   _state sg text = Raise (UnknownState ("Unknown state group " +:+ group_of text))) ∧
  (∀ g, sg !! group_of text = Some g →
     (∀ pre s post,
        all_states g = pre ++ s :: post → state s = text →
        Forall (λ r, state r ≠ text) pre →
        _state sg text = Ok s) ∧
     (Forall (λ r, state r ≠ text) (all_states g) →
      _state sg text = Raise (UnknownState ("Unknown state " +:+ text)))) ∧
  (∀ s, _state sg text = Ok s →
     ∃ g, sg !! group_of text = Some g ∧ s ∈ all_states g ∧ state s = text).
Proof.
  split; [apply group_of_spec|]. unfold _state. split_and!.
  - by intros ->.
  - intros g ->. split.
    + intros pre s post Hl Hs Hpre.
      assert (scan_states text (all_states g) = Some s) as ->; [|done].
      apply scan_states_Some. by exists pre, post.
    + intros Hall. by apply scan_states_None in Hall as ->.
  - intros s. destruct (sg !! group_of text) as [g|]; [|done].
    destruct (scan_states text (all_states g)) as [s'|] eqn:Hscan; [|done].
    intros [= ->]. exists g. apply scan_states_Some in Hscan
      as (pre & post & Hl & Hs & _).
    split_and!; [done| |done]. rewrite Hl. set_solver.
Qed.

Lemma _state_resolution_witness :
  _state registry "Main:step1" = Ok stateA ∧
  _state registry "Main:step2" = Ok stateB ∧
  _state registry "Main:step9" = Raise (UnknownState "Unknown state Main:step9") ∧
  _state registry "Other:step1" = Raise (UnknownState "Unknown state group Other").
Proof.
  destruct (_state_resolution registry "Main:step1") as (_ & _ & H1 & _).
  destruct (_state_resolution registry "Main:step2") as (_ & _ & H2 & _).
  destruct (_state_resolution registry "Main:step9") as (_ & _ & H9 & _).
  destruct (_state_resolution registry "Other:step1") as (_ & Ho & _).
  split_and!.
  - apply (H1 (mkGroup [stateA; stateB]) eq_refl) with (pre := []) (post := [stateB]);
      [reflexivity | reflexivity | constructor].
  - apply (H2 (mkGroup [stateA; stateB]) eq_refl) with (pre := [stateA]) (post := []);
      [reflexivity | reflexivity | ].
    repeat constructor. discriminate.
  - apply (H9 (mkGroup [stateA; stateB]) eq_refl).
    repeat constructor; discriminate.
  - apply Ho. reflexivity.
Defined.

(** ** Properties of access-settings marshaling *)

Lemma ChatMemberStatus_call_literal m :
  ChatMemberStatus_call (VStr (status_value m)) = Ok m.
Proof. by destruct m. Qed.

Lemma ChatMemberStatus_call_unknown s :
  (∀ m, status_value m ≠ s) →
  ChatMemberStatus_call (VStr s) = Raise (ValueError (VStr s)).
Proof.
  intros Hs. unfold ChatMemberStatus_call, all_statuses.
  cbn [List.find status_value].
  repeat match goal with
         | |- context [String.eqb ?lit s] =>
             let E := fresh "E" in
             destruct (String.eqb lit s) eqn:E;
             [apply String.eqb_eq in E | clear E]
         end;
    try done.
  all: match goal with
       | E : _ = _ |- _ =>
           first [ destruct (Hs CREATOR E) | destruct (Hs ADMINISTRATOR E)
                 | destruct (Hs MEMBER E) | destruct (Hs RESTRICTED E)
                 | destruct (Hs LEFT E) | destruct (Hs KICKED E) ]
       end.
Qed.

Lemma truthy_VStr s : s ≠ "" → truthy (VStr s) = true.
Proof. intros Hs. simpl. by apply String.eqb_neq in Hs as ->. Qed.

Lemma truthy_VDict (d : Dict) : d ≠ ∅ → truthy (VDict d) = true.
Proof. intros Hd. simpl. by rewrite bool_decide_false. Qed.

(** C7. Parsing an absent or empty raw sub-record gives no settings. For a
    non-empty record, [user_ids] is the stored list or the empty list when
    missing, [custom] is the stored value or [None], and [member_status] is
    absent when missing or empty, the decoded member when the stored literal
    (or member) is recognised, and a propagated [ValueError] otherwise.
    Dumping no settings gives [None], which parses back to no settings;
    dumping settings gives a record with exactly the three fields, copied
    verbatim. *)
Theorem access_settings_marshaling :
  _parse_access_settings VNone = Ok VNone ∧
  _parse_access_settings (VDict ∅) = Ok VNone ∧
  (∀ d : Dict, d ≠ ∅ →
     let uids := py_or (dict_get d "user_ids") (VList []) in
     let cu := dict_get d "custom" in
     (d !! "user_ids" = None → uids = VList []) ∧
     (∀ x l, d !! "user_ids" = Some (VList (x :: l)) → uids = VList (x :: l)) ∧
     (∀ v, d !! "custom" = Some v → cu = v) ∧
     (truthy (dict_get d "member_status") = false →
      _parse_access_settings (VDict d) = Ok (VAccess (mkAccess uids VNone cu))) ∧
     (∀ m, d !! "member_status" = Some (VStr (status_value m)) ∨
           d !! "member_status" = Some (VStatus m) →
      _parse_access_settings (VDict d) = Ok (VAccess (mkAccess uids (VStatus m) cu))) ∧
     (∀ s, d !! "member_status" = Some (VStr s) → s ≠ "" →
           (∀ m, status_value m ≠ s) →
      _parse_access_settings (VDict d) = Raise (ValueError (VStr s)))) ∧
  _dump_access_settings VNone = Ok VNone ∧
  (∀ raw, _dump_access_settings VNone = Ok raw → _parse_access_settings raw = Ok VNone) ∧
  (∀ a : AccessSettings,
     ∃ d : Dict, _dump_access_settings (VAccess a) = Ok (VDict d) ∧
       dom d = ({["user_ids"; "member_status"; "custom"]} : gset string) ∧
       d !! "user_ids" = Some (user_ids a) ∧
       d !! "member_status" = Some (member_status a) ∧
       d !! "custom" = Some (custom a)).
Proof.
  split_and!; try done.
  - intros d Hd uids cu. unfold _parse_access_settings.
    rewrite (truthy_VDict d Hd). cbn [negb]. fold uids cu. split_and!.
    + intros Hu. unfold uids, dict_get. by rewrite Hu.
    + intros x l Hu. unfold uids, dict_get. by rewrite Hu.
    + intros v Hc. unfold cu, dict_get. by rewrite Hc.
    + by intros ->.
    + intros m [Hm|Hm]; unfold dict_get at 1 2; rewrite Hm; cbn [default from_option id].
      * rewrite (truthy_VStr (status_value m)) by by destruct m.
        by rewrite ChatMemberStatus_call_literal.
      * done.
    + intros s Hm Hs Hunk. unfold dict_get at 1 2. rewrite Hm. cbn [default from_option id].
      rewrite (truthy_VStr s Hs).
      by rewrite (ChatMemberStatus_call_unknown s Hunk).
  - by intros raw [= <-].
  - intros a. eexists. split; [reflexivity|].
    split; [|by simplify_map_eq].
    rewrite !dom_insert_L, dom_empty_L. set_solver.
Qed.

Lemma access_settings_marshaling_witness :
  _parse_access_settings
    (VDict (<["user_ids" := VList [VInt 1; VInt 2]]>
           (<["member_status" := VStr "administrator"]>
           (<["custom" := VNone]> ∅)))) =
  Ok (VAccess (mkAccess (VList [VInt 1; VInt 2]) (VStatus ADMINISTRATOR) VNone)).
Proof.
  destruct access_settings_marshaling as (_ & _ & Hparse & _).
  pose (d := (<["user_ids" := VList [VInt 1; VInt 2]]>
             (<["member_status" := VStr "administrator"]>
             (<["custom" := VNone]> ∅))) : Dict).
  assert (d ≠ ∅) as Hd by (apply insert_non_empty).
  destruct (Hparse d Hd) as (_ & _ & _ & _ & Hm & _).
  apply (Hm ADMINISTRATOR). left. reflexivity.
Defined.

(** ** Properties of the storage keys *)

(** C8. A key has five parts: the bot identity, the chat id, the user id, the
    optional thread id and the discriminator "aiogd:<kind>:<id>" with kind
    "context" or "stack". Keys of distinct entity ids differ, and a context
    key never equals a stack key. *)
Theorem storage_key_shape (self : StorageProxy) (i j : string) :
  _context_key self i =
    Key.mk (Bot.id (bot self)) (chat_id self) (user_id self) (thread_id self)
           ("aiogd" +:+ ":" +:+ "context" +:+ ":" +:+ i) ∧
  _stack_key self i =
    Key.mk (Bot.id (bot self)) (chat_id self) (user_id self) (thread_id self)
           ("aiogd" +:+ ":" +:+ "stack" +:+ ":" +:+ i) ∧
  (i ≠ j → _context_key self i ≠ _context_key self j ∧
           _stack_key self i ≠ _stack_key self j) ∧
  _context_key self i ≠ _stack_key self j.
Proof.
  split_and!; [done..| |].
  - intros Hij. split; intros [= ?]; done.
  - intros [= ?].
Qed.

Lemma storage_key_shape_witness :
  _context_key proxy0 "a" ≠ _context_key proxy0 "b" ∧
  _stack_key proxy0 "a" ≠ _stack_key proxy0 "b" ∧
  _context_key proxy0 "a" ≠ _stack_key proxy0 "a".
Proof.
  destruct (storage_key_shape proxy0 "a" "b") as (_ & _ & Hne & _).
  destruct (storage_key_shape proxy0 "a" "a") as (_ & _ & _ & Hkind).
  destruct Hne as [Hc Hs]; [discriminate|]. done.
Defined.

(** ** Running the primitives *)

Section Runs.
Context {S : Type} `{!BaseStorage S}.
Implicit Types (w : World S) (d : Dict).

Lemma bind_Ok {A B} (m : M S A) (f : A → M S B) w a w' :
  m w = (Ok a, w') → (m ≫= f) w = f a w'.
Proof. unfold mbind, M_bind. by intros ->. Qed.

Lemma bind_Raise {A B} (m : M S A) (f : A → M S B) w e w' :
  m w = (Raise e, w') → (m ≫= f) w = (Raise e, w').
Proof. unfold mbind, M_bind. by intros ->. Qed.

Lemma deref_Ok w l d : heap w !! l = Some d → deref l w = (Ok d, w).
Proof. unfold deref. by intros ->. Qed.

Lemma getattr_Ok w o d name v :
  heap w !! o = Some d → d !! name = Some v → getattr o name w = (Ok v, w).
Proof.
  intros Ho Hv. unfold getattr. rewrite (bind_Ok _ _ _ _ _ (deref_Ok _ _ _ Ho)).
  by rewrite Hv.
Qed.

Lemma heap_alloc_old w l d d' :
  heap w !! l = Some d → (heap w ++ [d']) !! l = Some d.
Proof. intros Hl. by apply lookup_app_l_Some. Qed.

Lemma heap_alloc_new w d' : (heap w ++ [d']) !! length (heap w) = Some d'.
Proof. by rewrite list_lookup_middle. Qed.

Lemma heap_update_new_old w l d d' d'' :
  heap w !! l = Some d →
  (<[length (heap w) := d'']> (heap w ++ [d'])) !! l = Some d.
Proof.
  intros Hl. pose proof (lookup_lt_Some _ _ _ Hl).
  rewrite list_lookup_insert_ne by lia. by apply lookup_app_l_Some.
Qed.

Lemma heap_update_new w d' d'' :
  (<[length (heap w) := d'']> (heap w ++ [d'])) !! length (heap w) = Some d''.
Proof. apply list_lookup_insert_eq. rewrite length_app. simpl. lia. Qed.

End Runs.

Ltac run_step :=
  first
  [ progress cbn [heap storage trace fst snd negb]
  | rewrite heap_alloc_new
  | rewrite heap_update_new
  | match goal with
    | H : heap ?w !! ?l = Some _ |- context [(heap ?w ++ [_]) !! ?l] =>
        rewrite (heap_alloc_old w l _ _ H)
    | H : heap ?w !! ?l = Some _
      |- context [(<[length (heap ?w) := _]> (heap ?w ++ [_])) !! ?l] =>
        rewrite (heap_update_new_old w l _ _ _ H)
    | H : ?x = _ |- context [match ?x with _ => _ end] => rewrite H
    | H : truthy ?v = _ |- context [truthy ?v] => rewrite H
    | |- context [match _dump_access_settings ?v with _ => _ end] =>
        destruct (_dump_access_settings v) eqn:?
    | |- context [match _parse_access_settings ?v with _ => _ end] =>
        destruct (_parse_access_settings v) eqn:?
    | |- context [match _state ?g ?t with _ => _ end] =>
        destruct (_state g t) eqn:?
    | |- context [match ?d !! ?k with _ => _ end] => destruct (d !! k) eqn:?
    | |- context [match ?v with _ => _ end] => is_var v; destruct v
    | |- context [if ?b then _ else _] => destruct b eqn:?
    end ].

Section Frame.
Context {S : Type} `{!BaseStorage S}.
Variable self : StorageProxy.
Implicit Types (w : World S) (d : Dict).

Lemma save_context_frame ctx w l d0 :
  heap w !! l = Some d0 →
  heap (save_context self ctx w).2 !! l = Some d0.
Proof.
  intros Hl. destruct ctx as [c|]; [|done]. unfold_ops.
  repeat run_step; try first [done | by apply heap_alloc_old | by apply heap_update_new_old].
Qed.

Lemma save_stack_frame stack w l d0 :
  heap w !! l = Some d0 →
  heap (save_stack self stack w).2 !! l = Some d0.
Proof.
  intros Hl. destruct stack as [c|]; [|done]. unfold_ops.
  repeat run_step; try first [done | by apply heap_alloc_old | by apply heap_update_new_old].
Qed.

End Frame.

Global Instance MemoryStorage_verbatim : VerbatimStorage MemoryStorage.
Proof.
  split.
  - intros s k d. simpl. by rewrite decide_True.
  - intros s k k' d Hk. simpl. by rewrite decide_False.
Qed.

(** ** Saving leaves the entity alone *)

Section SaveFrame.
Context {S : Type} `{!BaseStorage S}.
Variable self : StorageProxy.

(** C9. Saving does not change the entity object: after [save_context] the
    context still has the attributes it had, in particular its [state] is
    still the state object and not the identifier written to the store, and
    after [save_stack] the stack still has the attributes it had, in
    particular its [access_settings] is still the settings object and not
    the dumped mapping. *)
Theorem save_keeps_entity (w : World S) (entity : nat) (d : Dict) :
  heap w !! entity = Some d →
  (heap (save_context self (Some entity) w).2 !! entity = Some d ∧
   ∀ s, d !! "state" = Some (VState s) →
        heap (save_context self (Some entity) w).2 !! entity ≫= (.!! "state")
        = Some (VState s)) ∧
  (heap (save_stack self (Some entity) w).2 !! entity = Some d ∧
   ∀ a, d !! "access_settings" = Some (VAccess a) →
        heap (save_stack self (Some entity) w).2 !! entity ≫= (.!! "access_settings")
        = Some (VAccess a)).
Proof.
  intros Hd.
  pose proof (save_context_frame self (Some entity) w entity d Hd) as Hc.
  pose proof (save_stack_frame self (Some entity) w entity d Hd) as Hs.
  split; (split; [done|]).
  - intros s Hstate. by rewrite Hc.
  - intros a Ha. by rewrite Hs.
Qed.

End SaveFrame.

Lemma save_keeps_entity_witness :
  heap (save_context proxy0 (Some 0%nat) world0).2 !! 0%nat = Some ctx0 ∧
  get_data (storage (save_context proxy0 (Some 0%nat) world0).2)
           (_context_key proxy0 "i1") !! "state" = Some (VStr "Main:step2") ∧
  heap (save_stack proxy0 (Some 0%nat) (world_of stack_busy)).2 !! 0%nat
  = Some stack_busy ∧
  is_Some (get_data (storage (save_stack proxy0 (Some 0%nat) (world_of stack_busy)).2)
                    (_stack_key proxy0 "s") !! "access_settings" ≫=
           (λ v, match v with VDict _ => Some () | _ => None end)).
Proof.
  pose proof (save_keeps_entity proxy0 world0 0%nat ctx0 eq_refl) as [[Hc _] _].
  pose proof (save_keeps_entity proxy0 (world_of stack_busy) 0%nat stack_busy eq_refl)
    as [_ [Hs _]].
  split_and!; [exact Hc | vm_compute; reflexivity | exact Hs | vm_compute; eauto].
Defined.

(** ** Loading *)

Section Load.
Context {S : Type} `{!BaseStorage S}.
Variable self : StorageProxy.
Implicit Types (w : World S) (d : Dict).

Lemma load_context_run w i text s :
  let data := get_data (storage w) (_context_key self i) in
  data ≠ ∅ → data !! "state" = Some (VStr text) →
  _state (state_groups self) text = Ok s →
  load_context self i w =
    (Ok (length (heap w)),
     mkWorld (heap w ++ [<["state" := VState s]> data]) (storage w)
             (trace w ++ [EvGet (_context_key self i)])).
Proof.
  intros data Hne Hst Hres. unfold_ops. cbn [heap storage trace].
  fold data. rewrite bool_decide_false by done. rewrite Hst, Hres. done.
Qed.

(** C4. [load_context] raises [UnknownIntent] exactly when the store holds
    an empty mapping under the context key of the intent id. In every case
    its only effect on the store is one read of that key: the store and the
    objects of the heap are unchanged. When a record exists whose state text
    resolves, the result is a new context built from the stored fields with
    the state text replaced by the resolved state object. *)
Theorem load_context_spec w i :
  let data := get_data (storage w) (_context_key self i) in
  ∃ r w', load_context self i w = (r, w') ∧
    ((∃ msg, r = Raise (UnknownIntent msg)) ↔ data = ∅) ∧
    storage w' = storage w ∧
    trace w' = trace w ++ [EvGet (_context_key self i)] ∧
    (∀ l d, heap w !! l = Some d → heap w' !! l = Some d) ∧
    (∀ text s, data ≠ ∅ → data !! "state" = Some (VStr text) →
               _state (state_groups self) text = Ok s →
       ∃ c, r = Ok c ∧ heap w !! c = None ∧
            heap w' !! c = Some (<["state" := VState s]> data)).
Proof.
  intros data. destruct (load_context self i w) as [r w'] eqn:Hrun.
  exists r, w'. split; [done|].
  revert Hrun. unfold_ops. cbn [heap storage trace]. fold data.
  destruct (decide (data = ∅)) as [Hempty|Hne].
  - rewrite bool_decide_true by done. intros [= <- <-]. cbn [heap storage trace].
    split_and!; [split; eauto | done.. |]. intros; done.
  - rewrite bool_decide_false by done.
    destruct (data !! "state") as [v|] eqn:Hst.
    + destruct v; try (intros [= <- <-]; cbn [heap storage trace];
        split_and!; [split; [by intros [? ?] | done] | done.. | intros; done]).
      destruct (_state (state_groups self) s) as [real|e] eqn:Hres;
        intros [= <- <-]; cbn [heap storage trace].
      * split_and!; [split; [by intros [? ?] | done] | done.. | |].
        -- intros l d Hl. by apply lookup_app_l_Some.
        -- intros text s' _ [= <-]. rewrite Hres. intros [= <-].
           exists (length (heap w)). split_and!; [done| |].
           ++ by apply lookup_ge_None_2.
           ++ by rewrite list_lookup_middle.
      * split_and!; [split; [|done] | done.. | ].
        -- intros [msg [= ->]].
           unfold _state in Hres. repeat case_match; done.
        -- intros text s' _ [= <-]. by rewrite Hres.
    + intros [= <- <-]. cbn [heap storage trace].
      split_and!; [split; [by intros [? ?] | done] | done.. | intros; done].
Qed.

End Load.

Lemma dict_nonempty (d : Dict) k v : d !! k = Some v → d ≠ ∅.
Proof. intros Hk ->. by rewrite lookup_empty in Hk. Qed.

Lemma load_context_spec_witness :
  (∃ msg w', load_context proxy0 "x" world0 = (Raise (UnknownIntent msg), w')) ∧
  (∃ c w', load_context proxy0 "i1" (save_context proxy0 (Some 0%nat) world0).2
           = (Ok c, w') ∧ heap w' !! c ≫= (.!! "state") = Some (VState stateB)).
Proof.
  split.
  - destruct (load_context_spec proxy0 world0 "x") as (r & w' & Hrun & [_ Hmiss] & _).
    destruct (Hmiss eq_refl) as [msg ->]. by exists msg, w'.
  - destruct (load_context_spec proxy0 (save_context proxy0 (Some 0%nat) world0).2 "i1")
      as (r & w' & Hrun & _ & _ & _ & _ & Hok).
    destruct (Hok "Main:step2" stateB) as (c & -> & _ & Hc).
    + apply (dict_nonempty _ "state" (VStr "Main:step2")). vm_compute. reflexivity.
    + vm_compute. reflexivity.
    + vm_compute. reflexivity.
    + exists c, w'. split; [done|]. rewrite Hc. apply lookup_insert_eq.
Defined.

Section LoadStack.
Context {S : Type} `{!BaseStorage S}.
Variable self : StorageProxy.
Implicit Types (w : World S) (d : Dict).

Lemma fresh_stack_new (i : string) :
  ({["_id" := VStr i]} : Dict) ∪ Stack_defaults = fresh_stack i.
Proof. unfold fresh_stack. by rewrite insert_union_singleton_l. Qed.

Lemma load_stack_fresh w i :
  get_data (storage w) (_stack_key self i) = ∅ →
  load_stack self i w =
    (Ok (length (heap w)),
     mkWorld (heap w ++ [fresh_stack i]) (storage w)
             (trace w ++ [EvGet (_stack_key self i)])).
Proof.
  intros Hdata. unfold_ops. cbn [heap storage trace]. rewrite Hdata.
  rewrite bool_decide_true by done. by rewrite fresh_stack_new.
Qed.

(** C5. When the store holds an empty mapping under the stack key,
    [load_stack] does not raise: it returns a new stack whose id is the
    requested one, with no history, no last message id and no access
    settings, and nothing else set. *)
Theorem load_stack_missing w i :
  get_data (storage w) (_stack_key self i) = ∅ →
  ∃ c w' d, load_stack self i w = (Ok c, w') ∧
    heap w !! c = None ∧ heap w' !! c = Some d ∧
    d !! "_id" = Some (VStr i) ∧
    d !! "intents" = Some (VList []) ∧
    d !! "last_message_id" = Some VNone ∧
    d !! "access_settings" = Some VNone ∧
    dom d = ({["_id"; "intents"; "last_message_id"; "access_settings"]} : gset string) ∧
    storage w' = storage w.
Proof.
  intros Hdata. rewrite (load_stack_fresh w i Hdata).
  eexists _, _, (fresh_stack i). split; [done|]. cbn [heap storage].
  split; [by apply lookup_ge_None_2|].
  split; [by rewrite list_lookup_middle|].
  split_and!; [reflexivity.. | | reflexivity].
  unfold fresh_stack, Stack_defaults.
  rewrite !dom_insert_L, dom_empty_L. set_solver.
Qed.

(** C10. A non-empty stored stack record without an ["access_settings"]
    field makes [load_stack] fail with the key-lookup error of the
    unconditional [pop]; a load that succeeds found either no record or a
    record containing that field. *)
Theorem load_stack_requires_access_settings w i :
  let data := get_data (storage w) (_stack_key self i) in
  (data ≠ ∅ → data !! "access_settings" = None →
   ∃ w', load_stack self i w = (Raise (KeyError "access_settings"), w')) ∧
  (∀ c w', load_stack self i w = (Ok c, w') →
           data = ∅ ∨ is_Some (data !! "access_settings")).
Proof.
  intros data. split.
  - intros Hne Hnone. unfold_ops. cbn [heap storage trace]. fold data.
    rewrite bool_decide_false by done. rewrite Hnone. eauto.
  - intros c w'. unfold_ops. cbn [heap storage trace]. fold data.
    destruct (decide (data = ∅)) as [?|Hne]; [by left|].
    rewrite bool_decide_false by done.
    destruct (data !! "access_settings"); [by right; eauto | done].
Qed.

End LoadStack.

Lemma load_stack_missing_witness :
  ∃ c w' d, load_stack proxy0 "y" world0 = (Ok c, w') ∧
            heap w' !! c = Some d ∧
            d !! "_id" = Some (VStr "y") ∧
            d !! "access_settings" = Some VNone.
Proof.
  assert (get_data (storage world0) (_stack_key proxy0 "y") = ∅) as Hnone
    by reflexivity.
  destruct (load_stack_missing proxy0 world0 "y" Hnone)
    as (c & w' & d & Hrun & _ & Hd & Hid & _ & _ & Ha & _).
  by exists c, w', d.
Defined.

Lemma load_stack_requires_access_settings_witness :
  ∃ w', load_stack proxy0 "s" world_legacy = (Raise (KeyError "access_settings"), w').
Proof.
  destruct (load_stack_requires_access_settings proxy0 world_legacy "s") as [Hfail _].
  apply Hfail.
  - apply (dict_nonempty _ "_id" (VStr "s")). vm_compute. reflexivity.
  - vm_compute. reflexivity.
Defined.

(** ** Round trips *)

Lemma canonical_resolves sg s : canonical sg s → _state sg (state s) = Ok s.
Proof.
  intros (g & pre & post & Hg & Hl & Hpre). unfold _state. rewrite Hg.
  assert (scan_states (state s) (all_states g) = Some s) as ->; [|done].
  apply scan_states_Some. by exists pre, post.
Qed.

Lemma access_settings_roundtrip a :
  valid_access a →
  ∃ raw, _dump_access_settings a = Ok raw ∧ _parse_access_settings raw = Ok a.
Proof.
  intros [->|(l & ms & cu & -> & Hms)]; [by exists VNone|].
  eexists. split; [reflexivity|]. unfold _parse_access_settings.
  rewrite truthy_VDict by apply insert_non_empty. cbn [negb].
  unfold dict_get. rewrite lookup_insert_eq.
  rewrite lookup_insert_ne, lookup_insert_eq by done.
  rewrite !lookup_insert_ne, lookup_insert_eq by done.
  cbn [default from_option id user_ids member_status custom].
  assert (py_or (VList l) (VList []) = VList l) as -> by by destruct l.
  by destruct Hms as [->|[m ->]].
Qed.

Lemma union_Stack_defaults (d : Dict) :
  is_Some (d !! "intents") → is_Some (d !! "last_message_id") →
  is_Some (d !! "access_settings") → d ∪ Stack_defaults = d.
Proof.
  intros [v1 H1] [v2 H2] [v3 H3]. apply map_eq. intros k.
  destruct (d !! k) as [v|] eqn:Hk.
  - by apply lookup_union_Some_l.
  - apply lookup_union_None. split; [done|]. unfold Stack_defaults.
    rewrite !lookup_insert_ne, lookup_empty; [done|intros <-; congruence..].
Qed.

Section RoundTrip.
Context {S : Type} `{!BaseStorage S} `{!VerbatimStorage S}.
Variable self : StorageProxy.
Implicit Types (w : World S) (d : Dict).

Lemma save_context_run w c d i s :
  heap w !! c = Some d → d !! "_intent_id" = Some (VStr i) →
  d !! "state" = Some (VState s) →
  let flat := <["state" := VStr (state s)]> d in
  save_context self (Some c) w =
    (Ok (),
     mkWorld (<[length (heap w) := flat]> (heap w ++ [d]))
             (set_data (storage w) (_context_key self i) flat)
             (trace w ++ [EvSet (_context_key self i) flat])).
Proof.
  intros Hc Hi Hs flat. unfold_ops. repeat run_step. done.
Qed.

(** C1. For a context whose state is the registry's canonical instance for
    its identifier, over a store that returns mappings verbatim, saving the
    context and loading it under its intent id gives a context with the same
    attributes: the same id, the same state object of the registry and the
    same other fields. *)
Theorem context_roundtrip w c d i s :
  heap w !! c = Some d →
  d !! "_intent_id" = Some (VStr i) →
  d !! "state" = Some (VState s) →
  canonical (state_groups self) s →
  ∃ w1 c' w2,
    save_context self (Some c) w = (Ok (), w1) ∧
    load_context self i w1 = (Ok c', w2) ∧
    heap w2 !! c' = Some d ∧
    heap w2 !! c' ≫= (.!! "_intent_id") = Some (VStr i) ∧
    heap w2 !! c' ≫= (.!! "state") = Some (VState s).
Proof.
  intros Hc Hi Hs Hcan. eexists _, _, _.
  split; [by apply save_context_run|].
  set (flat := <["state" := VStr (state s)]> d).
  assert (<["state" := VState s]> flat = d) as Hback.
  { unfold flat. rewrite insert_insert_eq. by apply insert_id. }
  assert (heap_new : ∀ (h : list Dict),
             (h ++ [<["state" := VState s]> flat]) !! length h = Some d).
  { intros h. by rewrite list_lookup_middle, Hback. }
  split.
  - apply (load_context_run self _ i (state s) s); cbn [storage];
      rewrite ?get_set_same.
    + apply insert_non_empty.
    + apply lookup_insert_eq.
    + by apply canonical_resolves.
  - cbn [heap storage]. rewrite get_set_same. fold flat.
    rewrite heap_new. split_and!; [done | exact Hi | exact Hs].
Qed.

Lemma save_stack_tombstone w c d i hist lm :
  heap w !! c = Some d → d !! "_id" = Some (VStr i) →
  d !! "intents" = Some hist → d !! "last_message_id" = Some lm →
  truthy hist = false → truthy lm = false →
  save_stack self (Some c) w =
    (Ok (),
     mkWorld (heap w) (set_data (storage w) (_stack_key self i) ∅)
             (trace w ++ [EvSet (_stack_key self i) ∅])).
Proof.
  intros Hc Hi Hh Hl Hhist Hlm. unfold_ops. repeat run_step. done.
Qed.

Lemma save_stack_run w c d i hist lm a raw :
  heap w !! c = Some d → d !! "_id" = Some (VStr i) →
  d !! "intents" = Some hist → d !! "last_message_id" = Some lm →
  d !! "access_settings" = Some a →
  truthy hist = true ∨ truthy lm = true →
  _dump_access_settings a = Ok raw →
  let flat := <["access_settings" := raw]> d in
  save_stack self (Some c) w =
    (Ok (),
     mkWorld (<[length (heap w) := flat]> (heap w ++ [d]))
             (set_data (storage w) (_stack_key self i) flat)
             (trace w ++ [EvSet (_stack_key self i) flat])).
Proof.
  intros Hc Hi Hh Hl Ha Hset Hdump flat. unfold_ops.
  destruct (truthy hist) eqn:Hhist.
  - repeat run_step. done.
  - destruct Hset as [?|Hlm]; [done|]. repeat run_step. done.
Qed.

End RoundTrip.

Lemma canonical_stateB : canonical registry stateB.
Proof.
  exists (mkGroup [stateA; stateB]), [stateA], [].
  split_and!; [reflexivity..|]. repeat constructor. discriminate.
Qed.

Lemma context_roundtrip_witness :
  ∃ w1 c' w2,
    save_context proxy0 (Some 0%nat) world0 = (Ok (), w1) ∧
    load_context proxy0 "i1" w1 = (Ok c', w2) ∧
    heap w2 !! c' = Some ctx0.
Proof.
  destruct (context_roundtrip proxy0 world0 0%nat ctx0 "i1" stateB)
    as (w1 & c' & w2 & Hsave & Hload & Hsame & _).
  - reflexivity.
  - vm_compute. reflexivity.
  - vm_compute. reflexivity.
  - exact canonical_stateB.
  - by exists w1, c', w2.
Defined.

Section StackRoundTrip.
Context {S : Type} `{!BaseStorage S} `{!VerbatimStorage S}.
Variable self : StorageProxy.
Implicit Types (w : World S) (d : Dict).

Lemma load_stack_run w i data raw a :
  get_data (storage w) (_stack_key self i) = data →
  data ≠ ∅ → data !! "access_settings" = Some raw →
  _parse_access_settings raw = Ok a →
  load_stack self i w =
    (Ok (length (heap w)),
     mkWorld (heap w ++ [<["access_settings" := a]> (delete "access_settings" data)
                         ∪ Stack_defaults])
             (storage w) (trace w ++ [EvGet (_stack_key self i)])).
Proof.
  intros Hdata Hne Hraw Hparse. unfold_ops. cbn [heap storage trace].
  rewrite Hdata, bool_decide_false by done. by rewrite Hraw, Hparse.
Qed.

(** C2, as amended. For a well-typed stack with a non-empty history or a
    last message id that is set and not zero, over a store that returns
    mappings verbatim, saving the stack and loading it under its id gives a
    stack with the same attributes; in particular the access settings come
    back as they were, absent when absent and the equal descriptor when
    present. *)
Theorem stack_roundtrip w c d i hist lm a :
  heap w !! c = Some d →
  d !! "_id" = Some (VStr i) →
  d !! "intents" = Some hist →
  d !! "last_message_id" = Some lm →
  d !! "access_settings" = Some a →
  valid_access a →
  truthy hist = true ∨ truthy lm = true →
  ∃ w1 c' w2,
    save_stack self (Some c) w = (Ok (), w1) ∧
    load_stack self i w1 = (Ok c', w2) ∧
    heap w2 !! c' = Some d ∧
    heap w2 !! c' ≫= (.!! "access_settings") = Some a.
Proof.
  intros Hc Hi Hh Hl Ha Hvalid Hset.
  destruct (access_settings_roundtrip a Hvalid) as (raw & Hdump & Hparse).
  eexists _, _, _.
  split; [by eapply save_stack_run|].
  set (flat := <["access_settings" := raw]> d).
  assert (<["access_settings" := a]> (delete "access_settings" flat)
          ∪ Stack_defaults = d) as Hback.
  { unfold flat. rewrite delete_insert_eq, insert_delete_eq.
    rewrite (insert_id d "access_settings" a Ha).
    apply union_Stack_defaults; eauto. }
  split.
  - eapply load_stack_run; cbn [storage]; rewrite ?get_set_same; fold flat.
    + reflexivity.
    + apply insert_non_empty.
    + apply lookup_insert_eq.
    + exact Hparse.
  - cbn [heap storage]. fold flat. rewrite Hback, list_lookup_middle by done.
    split; [done | exact Ha].
Qed.

(** C6, as amended. A stack with empty history and no last message id (or a
    zero one) is saved as an empty record under its key whatever access
    settings it carries, and loading that id afterwards gives the fresh stack,
    without access settings. A stack with a non-empty history or a non-zero
    last message id is never saved as an empty record: [save_stack] either
    writes a non-empty record under its key or raises without writing. *)
Theorem empty_stack_normalization w c d i hist lm :
  heap w !! c = Some d →
  d !! "_id" = Some (VStr i) →
  d !! "intents" = Some hist →
  d !! "last_message_id" = Some lm →
  (truthy hist = false → truthy lm = false →
   ∃ w1 c' w2,
     save_stack self (Some c) w = (Ok (), w1) ∧
     storage w1 = set_data (storage w) (_stack_key self i) ∅ ∧
     trace w1 = trace w ++ [EvSet (_stack_key self i) ∅] ∧
     load_stack self i w1 = (Ok c', w2) ∧
     heap w2 !! c' = Some (fresh_stack i) ∧
     heap w2 !! c' ≫= (.!! "access_settings") = Some VNone) ∧
  (truthy hist = true ∨ truthy lm = true →
   ∀ r w1, save_stack self (Some c) w = (r, w1) →
     (trace w1 = trace w ∧ storage w1 = storage w) ∨
     ∃ rec, rec ≠ ∅ ∧
            trace w1 = trace w ++ [EvSet (_stack_key self i) rec] ∧
            storage w1 = set_data (storage w) (_stack_key self i) rec).
Proof.
  intros Hc Hi Hh Hl. split.
  - intros Hhist Hlm. eexists _, _, _.
    split; [by eapply save_stack_tombstone|]. cbn [heap storage trace].
    split; [done|]. split; [done|]. split.
    + apply load_stack_fresh. cbn [storage]. by rewrite get_set_same.
    + cbn [heap]. rewrite list_lookup_middle by done. done.
  - intros Hset r w1. unfold_ops.
    destruct (truthy hist) eqn:Hhist.
    + repeat run_step; intros [= <- <-]; cbn [storage trace];
        first [ by left | right; eexists; split; [apply insert_non_empty|done] ].
    + destruct Hset as [?|Hlm]; [done|].
      repeat run_step; intros [= <- <-]; cbn [storage trace];
        first [ by left | right; eexists; split; [apply insert_non_empty|done] ].
Qed.

End StackRoundTrip.

Lemma valid_access_admins : valid_access admins.
Proof.
  right. exists [VInt 1; VInt 2], (VStatus ADMINISTRATOR), VNone.
  split; [reflexivity|]. right. by exists ADMINISTRATOR.
Qed.

Lemma stack_roundtrip_witness :
  ∃ w1 c' w2,
    save_stack proxy0 (Some 0%nat) (world_of stack_busy) = (Ok (), w1) ∧
    load_stack proxy0 "s" w1 = (Ok c', w2) ∧
    heap w2 !! c' = Some stack_busy ∧
    heap w2 !! c' ≫= (.!! "access_settings") = Some admins.
Proof.
  apply (stack_roundtrip proxy0 (world_of stack_busy) 0%nat stack_busy "s"
           (VList [VStr "i1"]) (VInt 10) admins).
  - reflexivity.
  - vm_compute. reflexivity.
  - vm_compute. reflexivity.
  - vm_compute. reflexivity.
  - vm_compute. reflexivity.
  - exact valid_access_admins.
  - left. reflexivity.
Defined.

(** The stack [stack_zero_admins] has no history but a last message id that
    is set, to [0], and carries access settings. Saving it writes the empty
    record, so loading it back gives the fresh stack: the last message id and
    the access settings are lost, and the loaded stack is not the saved one. *)
Lemma stack_roundtrip_fails_at_zero :
  stack_zero_admins !! "last_message_id" = Some (VInt 0) ∧
  stack_zero_admins !! "access_settings" = Some admins ∧
  (∃ w1 c' w2,
     save_stack proxy0 (Some 0%nat) (world_of stack_zero_admins) = (Ok (), w1) ∧
     load_stack proxy0 "s" w1 = (Ok c', w2) ∧
     heap w2 !! c' ≫= (.!! "last_message_id") = Some VNone ∧
     heap w2 !! c' ≫= (.!! "access_settings") = Some VNone) ∧
  ¬ (∃ w1 c' w2,
       save_stack proxy0 (Some 0%nat) (world_of stack_zero_admins) = (Ok (), w1) ∧
       load_stack proxy0 "s" w1 = (Ok c', w2) ∧
       heap w2 !! c' = Some stack_zero_admins).
Proof.
  assert (save_stack proxy0 (Some 0%nat) (world_of stack_zero_admins) =
          (Ok (), mkWorld [stack_zero_admins]
                    [(_stack_key proxy0 "s", ∅)]
                    [EvSet (_stack_key proxy0 "s") ∅])) as Hsave.
  { rewrite (save_stack_tombstone proxy0 (world_of stack_zero_admins) 0%nat
               stack_zero_admins "s" (VList []) (VInt 0))
      by first [reflexivity | vm_compute; reflexivity].
    reflexivity. }
  assert (load_stack proxy0 "s"
            (mkWorld (S := MemoryStorage) [stack_zero_admins]
                     [(_stack_key proxy0 "s", ∅)]
                     [EvSet (_stack_key proxy0 "s") ∅]) =
          (Ok 1%nat,
           mkWorld [stack_zero_admins; fresh_stack "s"]
                   [(_stack_key proxy0 "s", ∅)]
                   [EvSet (_stack_key proxy0 "s") ∅;
                    EvGet (_stack_key proxy0 "s")])) as Hload.
  { rewrite (load_stack_fresh proxy0 _ "s") by reflexivity. reflexivity. }
  split_and!.
  - vm_compute. reflexivity.
  - vm_compute. reflexivity.
  - eexists _, _, _. split; [exact Hsave|]. split; [exact Hload|].
    split; vm_compute; reflexivity.
  - intros (w1 & c' & w2 & Hs & Hl & Hsame).
    rewrite Hsave in Hs. injection Hs as <-.
    pose proof (eq_trans (eq_sym Hload) Hl) as Heq. injection Heq as <- <-.
    apply (f_equal (λ o : option Dict,
                      o ≫= (λ d : Dict, d !! "last_message_id"))) in Hsame.
    vm_compute in Hsame. discriminate.
Qed.

Lemma empty_stack_normalization_witness :
  (∃ w1 c' w2,
     save_stack proxy0 (Some 0%nat) (world_of stack_idle) = (Ok (), w1) ∧
     get_data (storage w1) (_stack_key proxy0 "s") = ∅ ∧
     load_stack proxy0 "s" w1 = (Ok c', w2) ∧
     heap w2 !! c' ≫= (.!! "access_settings") = Some VNone) ∧
  (∃ w1 rec,
     save_stack proxy0 (Some 0%nat) (world_of stack_busy) = (Ok (), w1) ∧
     rec ≠ ∅ ∧ trace w1 = [EvSet (_stack_key proxy0 "s") rec]).
Proof.
  split.
  - destruct (empty_stack_normalization proxy0 (world_of stack_idle) 0%nat
                stack_idle "s" (VList []) VNone) as [Hidle _];
      [reflexivity | vm_compute; reflexivity..|].
    destruct (Hidle eq_refl eq_refl) as (w1 & c' & w2 & Hs & Hst & _ & Hl & _ & Ha).
    exists w1, c', w2. split_and!; [done| |done..].
    rewrite Hst. apply get_set_same.
  - destruct (empty_stack_normalization proxy0 (world_of stack_busy) 0%nat
                stack_busy "s" (VList [VStr "i1"]) (VInt 10)) as [_ Hbusy];
      [reflexivity | vm_compute; reflexivity..|].
    eassert (save_stack proxy0 (Some 0%nat) (world_of stack_busy) = _) as Hrun.
    { apply (save_stack_run proxy0 (world_of stack_busy) 0%nat stack_busy "s"
               (VList [VStr "i1"]) (VInt 10) admins);
        first [reflexivity | vm_compute; reflexivity | left; reflexivity]. }
    destruct (Hbusy (or_introl eq_refl) _ _ Hrun)
      as [[Htrace _]|(rec & Hrec & Htrace & _)].
    + cbn [trace world_of app] in Htrace. discriminate.
    + eexists _, rec. split; [exact Hrun|]. split; [done|]. exact Htrace.
Defined.

(** The stack [stack_zero] has a last message id, [0], and yet [save_stack]
    writes the empty record under its key. *)
Lemma zero_message_id_tombstoned :
  stack_zero !! "last_message_id" = Some (VInt 0) ∧
  ∃ w1, save_stack proxy0 (Some 0%nat) (world_of stack_zero) = (Ok (), w1) ∧
        trace w1 = [EvSet (_stack_key proxy0 "s") ∅] ∧
        get_data (storage w1) (_stack_key proxy0 "s") = ∅.
Proof.
  split; [vm_compute; reflexivity|].
  eexists. split.
  - apply (save_stack_tombstone proxy0 (world_of stack_zero) 0%nat
             stack_zero "s" (VList []) (VInt 0));
      first [reflexivity | vm_compute; reflexivity].
  - split; reflexivity.
Qed.

(** ** Further properties: what a save writes *)

Section SaveCases.
Context {S : Type} `{!BaseStorage S}.
Variable self : StorageProxy.
Implicit Types (w : World S) (d : Dict).

Lemma save_context_cases ctx w r w1 :
  save_context self ctx w = (r, w1) →
  (storage w1 = storage w ∧ trace w1 = trace w ∧ (r = Ok () → ctx = None)) ∨
  (∃ c d i s,
     ctx = Some c ∧ r = Ok () ∧ heap w !! c = Some d ∧
     d !! "_intent_id" = Some (VStr i) ∧ d !! "state" = Some (VState s) ∧
     storage w1 = set_data (storage w) (_context_key self i)
                           (<["state" := VStr (state s)]> d) ∧
     trace w1 = trace w ++ [EvSet (_context_key self i)
                                  (<["state" := VStr (state s)]> d)]).
Proof.
  destruct ctx as [c|]; [|intros [= <- <-]; by left]. unfold_ops.
  repeat run_step; intros [= <- <-]; cbn [storage trace];
    first [ by left | right; eexists _, _, _, _; split_and!; by eauto ].
Qed.

Lemma save_stack_cases stack w r w1 :
  save_stack self stack w = (r, w1) →
  (storage w1 = storage w ∧ trace w1 = trace w ∧ (r = Ok () → stack = None)) ∨
  (∃ c d i rec,
     stack = Some c ∧ r = Ok () ∧ heap w !! c = Some d ∧
     d !! "_id" = Some (VStr i) ∧
     (rec = ∅ ∨ ∃ a raw, d !! "access_settings" = Some a ∧
                         _dump_access_settings a = Ok raw ∧
                         rec = <["access_settings" := raw]> d) ∧
     storage w1 = set_data (storage w) (_stack_key self i) rec ∧
     trace w1 = trace w ++ [EvSet (_stack_key self i) rec]).
Proof.
  destruct stack as [c|]; [|intros [= <- <-]; by left]. unfold_ops.
  repeat run_step; intros [= <- <-]; cbn [storage trace];
    first [ by left
          | right; eexists _, _, _, _; split_and!; by eauto 10 ].
Qed.


End SaveCases.

(** ** Further properties: keys and isolation *)

Lemma context_key_inj self i j : _context_key self i = _context_key self j → i = j.
Proof. by intros [= ?]. Qed.

Lemma stack_key_inj self i j : _stack_key self i = _stack_key self j → i = j.
Proof. by intros [= ?]. Qed.

Lemma context_key_ne_stack_key self i j : _context_key self i ≠ _stack_key self j.
Proof. intros [= ?]. Qed.

Section Isolation.
Context {S : Type} `{!BaseStorage S} `{!VerbatimStorage S}.
Variable self : StorageProxy.
Implicit Types (w : World S) (d : Dict).

(** X2. Contexts and stacks do not disturb each other, nor entities of other
    ids: whatever [save_context] or [remove_context] does, every stack record
    reads as before, and whatever [save_stack] or [remove_stack] does, every
    context record reads as before; removing the context (stack) of one id
    leaves the context (stack) of every other id as it was. *)
Theorem writes_are_key_local w :
  (∀ ctx r w1 j, save_context self ctx w = (r, w1) →
     get_data (storage w1) (_stack_key self j) =
     get_data (storage w) (_stack_key self j)) ∧
  (∀ stack r w1 j, save_stack self stack w = (r, w1) →
     get_data (storage w1) (_context_key self j) =
     get_data (storage w) (_context_key self j)) ∧
  (∀ i j, get_data (storage (remove_context self i w).2) (_stack_key self j) =
          get_data (storage w) (_stack_key self j)) ∧
  (∀ i j, get_data (storage (remove_stack self i w).2) (_context_key self j) =
          get_data (storage w) (_context_key self j)) ∧
  (∀ i j, i ≠ j →
     get_data (storage (remove_context self i w).2) (_context_key self j) =
     get_data (storage w) (_context_key self j) ∧
     get_data (storage (remove_stack self i w).2) (_stack_key self j) =
     get_data (storage w) (_stack_key self j)).
Proof.
  split_and!.
  - intros ctx r w1 j Hrun. destruct (save_context_cases _ _ _ _ _ Hrun)
      as [(-> & _)|(c & d & i & s & _ & _ & _ & _ & _ & -> & _)]; [done|].
    apply get_set_other, context_key_ne_stack_key.
  - intros stack r w1 j Hrun. destruct (save_stack_cases _ _ _ _ _ Hrun)
      as [(-> & _)|(c & d & i & rec & _ & _ & _ & _ & _ & -> & _)]; [done|].
    apply get_set_other. intros Heq. symmetry in Heq.
    by apply context_key_ne_stack_key in Heq.
  - intros i j. apply get_set_other, context_key_ne_stack_key.
  - intros i j. cbn. apply get_set_other. intros Heq. symmetry in Heq.
    by apply context_key_ne_stack_key in Heq.
  - intros i j Hij. split; cbn; apply get_set_other.
    + intros Heq. by apply context_key_inj in Heq.
    + intros Heq. by apply stack_key_inj in Heq.
Qed.

(** X3. Removing a context makes it unknown: over a store that returns
    mappings verbatim, [load_context] of the id raises [UnknownIntent]
    whatever was stored before, and removing once more changes nothing that
    can be read from the store. *)
Theorem remove_context_then_load w i :
  ∃ w1 w2 w3,
    remove_context self i w = (Ok (), w1) ∧
    load_context self i w1 =
      (Raise (UnknownIntent ("Context not found for intent id: " +:+ i)), w2) ∧
    heap w2 = heap w ∧
    remove_context self i w1 = (Ok (), w3) ∧
    ∀ key, get_data (storage w3) key = get_data (storage w1) key.
Proof.
  eexists _, _, _. split; [reflexivity|]. split_and!.
  - unfold_ops. cbn [heap storage trace]. rewrite get_set_same.
    by rewrite bool_decide_true.
  - done.
  - reflexivity.
  - intros key. cbn [storage].
    destruct (decide (_context_key self i = key)) as [<-|Hne].
    + by rewrite !get_set_same.
    + by rewrite !get_set_other.
Qed.

(** X4. Removing a stack brings it back to its initial condition: over a
    store that returns mappings verbatim, [load_stack] of the id returns the
    fresh stack of that id whatever was stored before, and removing once more
    changes nothing that can be read from the store. *)
Theorem remove_stack_then_load w i :
  ∃ w1 c w2 w3,
    remove_stack self i w = (Ok (), w1) ∧
    load_stack self i w1 = (Ok c, w2) ∧
    heap w2 !! c = Some (fresh_stack i) ∧
    remove_stack self i w1 = (Ok (), w3) ∧
    ∀ key, get_data (storage w3) key = get_data (storage w1) key.
Proof.
  eexists _, _, _, _. split; [reflexivity|]. split_and!.
  - apply load_stack_fresh. cbn [storage]. apply get_set_same.
  - cbn [heap]. by rewrite list_lookup_middle.
  - reflexivity.
  - intros key. cbn [storage].
    destruct (decide (_stack_key self i = key)) as [<-|Hne].
    + by rewrite !get_set_same.
    + by rewrite !get_set_other.
Qed.

End Isolation.

(** ** Further properties: loading *)

Lemma _state_Ok_inv sg text s :
  _state sg text = Ok s → state s = text ∧ canonical sg s.
Proof.
  unfold _state. destruct (sg !! group_of text) as [g|] eqn:Hg; [|done].
  destruct (scan_states text (all_states g)) as [s'|] eqn:Hscan; [|done].
  intros [= ->]. apply scan_states_Some in Hscan as (pre & post & Hl & Hs & Hpre).
  split; [done|]. exists g, pre, post. by rewrite Hs.
Qed.

Lemma _state_Raise_inv sg text e :
  _state sg text = Raise e → ∃ msg, e = UnknownState msg.
Proof. unfold _state. repeat case_match; intros [= <-]; eauto. Qed.

Section LoadMore.
Context {S : Type} `{!BaseStorage S}.
Variable self : StorageProxy.
Implicit Types (w : World S) (d : Dict).

Lemma load_context_Ok_inv w i c w1 :
  load_context self i w = (Ok c, w1) →
  let data := get_data (storage w) (_context_key self i) in
  ∃ text s,
    data ≠ ∅ ∧ data !! "state" = Some (VStr text) ∧
    _state (state_groups self) text = Ok s ∧
    c = length (heap w) ∧
    w1 = mkWorld (heap w ++ [<["state" := VState s]> data]) (storage w)
                 (trace w ++ [EvGet (_context_key self i)]).
Proof.
  intros Hrun data. revert Hrun. unfold_ops. cbn [heap storage trace]. fold data.
  destruct (decide (data = ∅)) as [Hempty|Hne].
  { by rewrite bool_decide_true. }
  rewrite bool_decide_false by done.
  destruct (data !! "state") as [[]|] eqn:Hst; try done.
  destruct (_state (state_groups self) s) as [real|e] eqn:Hres; [|done].
  intros [= <- <-]. by exists s, real.
Qed.

Lemma load_context_bad_record_run w i data text e :
  get_data (storage w) (_context_key self i) = data → data ≠ ∅ →
  data !! "state" = Some (VStr text) →
  _state (state_groups self) text = Raise e →
  load_context self i w =
    (Raise e, mkWorld (heap w) (storage w)
                      (trace w ++ [EvGet (_context_key self i)])).
Proof.
  intros Hdata Hne Hst Hres. unfold_ops.
  cbn [heap storage trace]. rewrite Hdata.
  rewrite bool_decide_false by done. by rewrite Hst, Hres.
Qed.

(** X5. A stored context record that cannot be turned into a context makes
    [load_context] fail without creating anything: a non-empty record with no
    ["state"] field raises the key-lookup error, and a state text that does
    not resolve raises the [UnknownState] of the resolution, unchanged. In
    both cases the heap and the store are as before and the trace has grown
    by the one read. *)
Theorem load_context_bad_record w i :
  let data := get_data (storage w) (_context_key self i) in
  let w_read := mkWorld (heap w) (storage w)
                        (trace w ++ [EvGet (_context_key self i)]) in
  data ≠ ∅ →
  (data !! "state" = None →
   load_context self i w = (Raise (KeyError "state"), w_read)) ∧
  (∀ text e, data !! "state" = Some (VStr text) →
             _state (state_groups self) text = Raise e →
     load_context self i w = (Raise e, w_read) ∧ ∃ msg, e = UnknownState msg).
Proof.
  intros data w_read Hne. split.
  - intros Hst. unfold_ops. cbn [heap storage trace]. fold data.
    rewrite bool_decide_false by done. by rewrite Hst.
  - intros text e Hst Hres. split; [|by eapply _state_Raise_inv].
    unfold_ops. cbn [heap storage trace]. fold data.
    rewrite bool_decide_false by done. by rewrite Hst, Hres.
Qed.

(** X6. Whatever is stored, [load_stack] only reads: the store is unchanged,
    the trace grows by exactly one read of the stack key, and every object of
    the heap is as before. When it returns, the stack is a new object; when it
    raises, no object has been created. *)
Theorem load_stack_only_reads w i :
  ∃ r w1, load_stack self i w = (r, w1) ∧
    storage w1 = storage w ∧
    trace w1 = trace w ++ [EvGet (_stack_key self i)] ∧
    (∀ l d, heap w !! l = Some d → heap w1 !! l = Some d) ∧
    (∀ c, r = Ok c → heap w !! c = None ∧ is_Some (heap w1 !! c)) ∧
    (∀ e, r = Raise e → heap w1 = heap w).
Proof.
  destruct (load_stack self i w) as [r w1] eqn:Hrun. exists r, w1.
  split; [done|]. revert Hrun. unfold_ops. cbn [heap storage trace].
  assert (∀ d : Dict, heap w !! length (heap w) = None ∧
                      is_Some ((heap w ++ [d]) !! length (heap w))) as Hnew.
  { intros d. split; [by apply lookup_ge_None_2|].
    rewrite list_lookup_middle by done. eauto. }
  repeat run_step; intros [= <- <-]; cbn [heap storage trace];
    (split_and!; [done | done | | | ]);
    try (intros l d' Hl; first [done | by apply lookup_app_l_Some]);
    try (intros c' [= <-]; apply Hnew);
    try (intros e' [= <-]; done);
    try done.
Qed.

(** X7. Loading a populated stack record: when the stored access settings
    parse, the result is a new stack whose [access_settings] is the parsed
    value, whose other fields are the stored ones verbatim, and whose history
    and last message id take their defaults when the record has none; when
    they do not parse, the error of the parse is raised unchanged. *)
Theorem load_stack_populated w i raw :
  let data := get_data (storage w) (_stack_key self i) in
  data ≠ ∅ → data !! "access_settings" = Some raw →
  (∀ e, _parse_access_settings raw = Raise e →
        ∃ w1, load_stack self i w = (Raise e, w1)) ∧
  (∀ a, _parse_access_settings raw = Ok a →
     ∃ c w1 d, load_stack self i w = (Ok c, w1) ∧ heap w1 !! c = Some d ∧
       d !! "access_settings" = Some a ∧
       (∀ k v, k ≠ "access_settings" → data !! k = Some v → d !! k = Some v) ∧
       (data !! "intents" = None → d !! "intents" = Some (VList [])) ∧
       (data !! "last_message_id" = None → d !! "last_message_id" = Some VNone)).
Proof.
  intros data Hne Hraw. split.
  - intros e He. unfold_ops. cbn [heap storage trace]. fold data.
    rewrite bool_decide_false by done. rewrite Hraw, He. eauto.
  - intros a Ha. eexists _, _, _. split.
    { unfold_ops. cbn [heap storage trace]. fold data.
      rewrite bool_decide_false by done. by rewrite Hraw, Ha. }
    cbn [heap]. split; [by rewrite list_lookup_middle|]. split_and!.
    + apply lookup_union_Some_l, lookup_insert_eq.
    + intros k v Hk Hv. apply lookup_union_Some_l.
      by rewrite lookup_insert_ne, lookup_delete_ne.
    + intros Hnone. rewrite lookup_union_r.
      * reflexivity.
      * by rewrite lookup_insert_ne, lookup_delete_ne.
    + intros Hnone. rewrite lookup_union_r.
      * reflexivity.
      * by rewrite lookup_insert_ne, lookup_delete_ne.
Qed.

End LoadMore.

(** ** Further properties: access settings *)

Lemma py_or_idempotent v : py_or (py_or v (VList [])) (VList []) = py_or v (VList []).
Proof. unfold py_or. destruct (truthy v) eqn:Hv; [by rewrite Hv|done]. Qed.

Lemma _parse_access_settings_Raise_inv raw e :
  _parse_access_settings raw = Raise e →
  e = AttributeError "get" ∨ ∃ v, e = ValueError v.
Proof.
  unfold _parse_access_settings. destruct (truthy raw); [|done]. cbn [negb].
  destruct raw; try (intros [= <-]; by left).
  destruct (truthy (dict_get d "member_status")); [|done].
  destruct (ChatMemberStatus_call (dict_get d "member_status")) as [m|e'] eqn:Hcall;
    [done|].
  intros [= <-]. right. revert Hcall. unfold ChatMemberStatus_call.
  repeat case_match; intros [= <-]; eauto.
Qed.

(** X8. Whatever [_parse_access_settings] returns is stable under a dump
    followed by a parse: the result is [None] or settings whose
    [member_status] is [None] or a member of the enumeration, and dumping it
    and parsing the dump gives the same result again. *)
Theorem parsed_access_settings_stable raw a :
  _parse_access_settings raw = Ok a →
  (a = VNone ∨
   ∃ acc, a = VAccess acc ∧
          (member_status acc = VNone ∨ ∃ m, member_status acc = VStatus m)) ∧
  ∃ raw', _dump_access_settings a = Ok raw' ∧ _parse_access_settings raw' = Ok a.
Proof.
  unfold _parse_access_settings at 1.
  destruct (truthy raw) eqn:Hraw; cbn [negb].
  2: { intros [= <-]. split; [by left|]. by exists VNone. }
  destruct raw as [| | | | |d| | |]; try done.
  set (u := py_or (dict_get d "user_ids") (VList [])).
  set (cu := dict_get d "custom").
  assert (∀ ms, ms = VNone ∨ (∃ m, ms = VStatus m) →
            ∃ raw', _dump_access_settings (VAccess (mkAccess u ms cu)) = Ok raw' ∧
                    _parse_access_settings raw' = Ok (VAccess (mkAccess u ms cu)))
    as Hstable.
  { intros ms Hms. eexists. split; [reflexivity|].
    unfold _parse_access_settings.
    rewrite truthy_VDict by apply insert_non_empty. cbn [negb].
    unfold dict_get. rewrite lookup_insert_eq.
    rewrite lookup_insert_ne, lookup_insert_eq by done.
    rewrite !lookup_insert_ne, lookup_insert_eq by done.
    cbn [default from_option id user_ids member_status custom].
    unfold u. rewrite py_or_idempotent.
    by destruct Hms as [->|[m ->]]. }
  destruct (truthy (dict_get d "member_status")).
  - destruct (ChatMemberStatus_call (dict_get d "member_status")) as [m|e]; [|done].
    intros [= <-]. split; [|apply Hstable; eauto].
    right. eexists. split; [done|]. right. by exists m.
  - intros [= <-]. split; [|apply Hstable; eauto].
    right. eexists. split; [done|]. by left.
Qed.

(** X9. A record whose member status was stored as the string literal of a
    member parses to the same settings as the record holding the member
    itself, so settings survive a store that keeps only the literal. *)
Theorem member_status_literal_decodes (l : list Value) (m : ChatMemberStatus)
    (cu : Value) :
  let record ms : Value :=
    VDict (<["user_ids" := VList l]>
          (<["member_status" := ms]>
          (<["custom" := cu]> ∅))) in
  _dump_access_settings (VAccess (mkAccess (VList l) (VStatus m) cu))
    = Ok (record (VStatus m)) ∧
  _parse_access_settings (record (VStr (status_value m)))
    = Ok (VAccess (mkAccess (VList l) (VStatus m) cu)) ∧
  _parse_access_settings (record (VStr (status_value m)))
    = _parse_access_settings (record (VStatus m)).
Proof.
  intros record.
  assert (∀ ms, (ms = VStr (status_value m) ∨ ms = VStatus m) →
            _parse_access_settings (record ms)
            = Ok (VAccess (mkAccess (VList l) (VStatus m) cu))) as Hparse.
  { intros ms Hms. unfold record, _parse_access_settings.
    rewrite truthy_VDict by apply insert_non_empty. cbn [negb].
    unfold dict_get. rewrite lookup_insert_eq.
    rewrite lookup_insert_ne, lookup_insert_eq by done.
    rewrite !lookup_insert_ne, lookup_insert_eq by done.
    cbn [default from_option id].
    assert (py_or (VList l) (VList []) = VList l) as -> by by destruct l.
    destruct Hms as [->| ->].
    - rewrite truthy_VStr by by destruct m.
      by rewrite ChatMemberStatus_call_literal.
    - done. }
  split; [reflexivity|]. split.
  - apply Hparse. by left.
  - rewrite !Hparse; auto.
Qed.

(** ** Further properties: loading and saving compose *)

Section Compose.
Context {S : Type} `{!BaseStorage S} `{!VerbatimStorage S}.
Variable self : StorageProxy.
Implicit Types (w : World S) (d : Dict).

(** X10. Saving a context that was just loaded writes back the record that
    was read: when the stored record carries the intent id it is stored
    under, [save_context] of the loaded context succeeds and writes exactly
    that record under the same key, so every key of the store reads as it did
    before the load. *)
Theorem load_then_save_context w i c w1 :
  load_context self i w = (Ok c, w1) →
  get_data (storage w) (_context_key self i) !! "_intent_id" = Some (VStr i) →
  ∃ w2,
    save_context self (Some c) w1 = (Ok (), w2) ∧
    storage w2 = set_data (storage w) (_context_key self i)
                          (get_data (storage w) (_context_key self i)) ∧
    ∀ key, get_data (storage w2) key = get_data (storage w) key.
Proof.
  intros Hload Hid.
  destruct (load_context_Ok_inv self w i c w1 Hload)
    as (text & s & Hne & Hst & Hres & -> & ->).
  destruct (_state_Ok_inv _ _ _ Hres) as [Htext _].
  set (data := get_data (storage w) (_context_key self i)) in *.
  set (d := <["state" := VState s]> data).
  assert (<["state" := VStr (state s)]> d = data) as Hflat.
  { unfold d. rewrite insert_insert_eq, Htext. by apply insert_id. }
  eexists. split.
  { apply (save_context_run self _ (length (heap w)) d i s).
    - cbn [heap]. by rewrite list_lookup_middle.
    - unfold d. by rewrite lookup_insert_ne.
    - apply lookup_insert_eq. }
  cbn [storage]. rewrite Hflat. split; [done|].
  intros key. destruct (decide (_context_key self i = key)) as [<-|Hne'].
  - by rewrite get_set_same.
  - by rewrite get_set_other.
Qed.

(** X11. What [save_stack] writes, [load_stack] can read: after a save that
    returned normally, loading the stack of the same id never fails with a
    key-lookup error, since the record written is either empty or contains
    the ["access_settings"] field. *)
Theorem saved_stack_has_access_settings w c d i w1 :
  heap w !! c = Some d → d !! "_id" = Some (VStr i) →
  save_stack self (Some c) w = (Ok (), w1) →
  let data := get_data (storage w1) (_stack_key self i) in
  (data = ∅ ∨ is_Some (data !! "access_settings")) ∧
  ∀ key w2, load_stack self i w1 ≠ (Raise (KeyError key), w2).
Proof.
  intros Hc Hi Hrun data.
  destruct (save_stack_cases self _ _ _ _ Hrun)
    as [(_ & _ & Hnone)|(c' & d' & i' & rec & [= <-] & _ & Hc' & Hi' & Hrec & Hst & _)].
  { by specialize (Hnone eq_refl). }
  assert (d' = d) as -> by congruence. assert (i' = i) as -> by congruence.
  assert (data = rec) as Hdata.
  { unfold data. rewrite Hst. apply get_set_same. }
  destruct Hrec as [->|(a & raw & Ha & Hdump & ->)].
  - split; [by left|]. intros key w2.
    rewrite (load_stack_fresh self w1 i) by done. done.
  - split; [right; rewrite Hdata, lookup_insert_eq; eauto|].
    intros key w2. unfold_ops. cbn [heap storage trace]. fold data.
    rewrite Hdata, bool_decide_false by apply insert_non_empty.
    rewrite lookup_insert_eq.
    destruct (_parse_access_settings raw) as [a'|e] eqn:Hparse; [done|].
    intros [= -> _].
    by destruct (_parse_access_settings_Raise_inv _ _ Hparse) as [?|[? ?]].
Qed.

End Compose.


Section SaveMore.
Context {S : Type} `{!BaseStorage S} `{!VerbatimStorage S}.
Variable self : StorageProxy.
Implicit Types (w : World S) (d : Dict).


(** X13. Saving a context does not check its state against the registry; the
    check happens at load. For a context with a string id and a state object,
    [save_context] succeeds, and [load_context] of that id then behaves as
    the resolution of the state's identifier does: when it raises, the load
    raises the same error; when it returns a state, the loaded context has
    that state, which carries the same identifier but need not be the same
    object, and every other field of the original. *)
Theorem save_then_load_context w c d i s :
  heap w !! c = Some d →
  d !! "_intent_id" = Some (VStr i) →
  d !! "state" = Some (VState s) →
  ∃ w1, save_context self (Some c) w = (Ok (), w1) ∧
    (∀ e, _state (state_groups self) (state s) = Raise e →
          ∃ w2, load_context self i w1 = (Raise e, w2)) ∧
    (∀ s', _state (state_groups self) (state s) = Ok s' →
       state s' = state s ∧
       ∃ c' w2, load_context self i w1 = (Ok c', w2) ∧
                heap w2 !! c' = Some (<["state" := VState s']> d)).
Proof.
  intros Hc Hi Hs. eexists. split; [by apply save_context_run|].
  set (flat := <["state" := VStr (state s)]> d).
  assert (flat ≠ ∅) as Hne by apply insert_non_empty.
  assert (flat !! "state" = Some (VStr (state s))) as Hst by apply lookup_insert_eq.
  split.
  - intros e He. eexists.
    apply (load_context_bad_record_run self _ i flat (state s) e).
    + cbn [storage]. apply get_set_same.
    + done.
    + done.
    + done.
  - intros s' Hs'. split; [by apply _state_Ok_inv in Hs' as [? _]|].
    eexists _, _. split.
    + apply (load_context_run self _ i (state s) s'); cbn [storage];
        rewrite ?get_set_same; done.
    + cbn [heap storage]. rewrite get_set_same. fold flat.
      rewrite list_lookup_middle by done. unfold flat.
      by rewrite insert_insert_eq.
Qed.

End SaveMore.

(** ** Concrete runs of the further properties *)



Lemma writes_are_key_local_witness :
  get_data (storage (remove_context proxy0 "a" world_stored).2)
           (_context_key proxy0 "i1") = record_i1 ∧
  get_data (storage (remove_stack proxy0 "i1" world_stored).2)
           (_context_key proxy0 "i1") = record_i1.
Proof.
  destruct (writes_are_key_local proxy0 world_stored) as (_ & _ & _ & Hs & Hne).
  split.
  - destruct (Hne "a" "i1") as [Hc _]; [discriminate|]. rewrite Hc. reflexivity.
  - rewrite (Hs "i1" "i1"). reflexivity.
Defined.

Lemma remove_context_then_load_witness :
  ∃ w1 w2 msg,
    remove_context proxy0 "i1" world_stored = (Ok (), w1) ∧
    load_context proxy0 "i1" w1 = (Raise (UnknownIntent msg), w2).
Proof.
  destruct (remove_context_then_load proxy0 world_stored "i1")
    as (w1 & w2 & w3 & Hrm & Hload & _).
  by eexists w1, w2, _.
Defined.

Lemma remove_stack_then_load_witness :
  ∃ w1 c w2,
    remove_stack proxy0 "s" world_legacy = (Ok (), w1) ∧
    load_stack proxy0 "s" w1 = (Ok c, w2) ∧
    heap w2 !! c = Some (fresh_stack "s").
Proof.
  destruct (remove_stack_then_load proxy0 world_legacy "s")
    as (w1 & c & w2 & w3 & Hrm & Hload & Hfresh & _).
  by exists w1, c, w2.
Defined.

Lemma load_context_bad_record_witness :
  ∃ w1, load_context proxy0 "i9" world_stale =
          (Raise (UnknownState "Unknown state Main:step9"), w1) ∧
        heap w1 = [].
Proof.
  assert (get_data (storage world_stale) (_context_key proxy0 "i9") ≠ ∅) as Hne.
  { apply (dict_nonempty _ "state" (VStr "Main:step9")). vm_compute. reflexivity. }
  destruct (load_context_bad_record proxy0 world_stale "i9" Hne) as [_ Hbad].
  destruct (Hbad "Main:step9" (UnknownState "Unknown state Main:step9"))
    as [Hrun _]; [vm_compute; reflexivity | vm_compute; reflexivity |].
  eexists. split; [exact Hrun | reflexivity].
Defined.

Lemma load_stack_populated_witness :
  ∃ w1, load_stack proxy0 "s" world_bad_status =
          (Raise (ValueError (VStr "owner")), w1).
Proof.
  assert (get_data (storage world_bad_status) (_stack_key proxy0 "s") ≠ ∅) as Hne.
  { apply (dict_nonempty _ "_id" (VStr "s")). vm_compute. reflexivity. }
  destruct (load_stack_populated proxy0 world_bad_status "s" bad_settings Hne)
    as [Hbad _]; [vm_compute; reflexivity|].
  apply Hbad. vm_compute. reflexivity.
Defined.

Lemma parsed_access_settings_stable_witness :
  ∃ raw', _dump_access_settings admins = Ok raw' ∧
          _parse_access_settings raw' = Ok admins.
Proof.
  apply (parsed_access_settings_stable
           (VDict (<["user_ids" := VList [VInt 1; VInt 2]]>
                  (<["member_status" := VStr "administrator"]> ∅)))
           admins).
  vm_compute. reflexivity.
Defined.

Lemma load_then_save_context_witness :
  ∃ c w1 w2,
    load_context proxy0 "i1" world_stored = (Ok c, w1) ∧
    save_context proxy0 (Some c) w1 = (Ok (), w2) ∧
    get_data (storage w2) (_context_key proxy0 "i1") = record_i1.
Proof.
  assert (get_data (storage world_stored) (_context_key proxy0 "i1") ≠ ∅) as Hne.
  { apply (dict_nonempty _ "state" (VStr "Main:step1")). vm_compute. reflexivity. }
  eassert (load_context proxy0 "i1" world_stored = _) as Hload.
  { apply (load_context_run proxy0 world_stored "i1" "Main:step1" stateA);
      first [exact Hne | vm_compute; reflexivity]. }
  destruct (load_then_save_context proxy0 _ _ _ _ Hload) as (w2 & Hsave & _ & Hsame);
    [vm_compute; reflexivity|].
  eexists _, _, w2. split; [exact Hload|]. split; [exact Hsave|].
  rewrite Hsame. reflexivity.
Defined.

Lemma saved_stack_has_access_settings_witness :
  ∃ w1, save_stack proxy0 (Some 0%nat) (world_of stack_busy) = (Ok (), w1) ∧
        ∀ key w2, load_stack proxy0 "s" w1 ≠ (Raise (KeyError key), w2).
Proof.
  eassert (save_stack proxy0 (Some 0%nat) (world_of stack_busy) = _) as Hrun.
  { apply (save_stack_run proxy0 (world_of stack_busy) 0%nat stack_busy "s"
             (VList [VStr "i1"]) (VInt 10) admins);
      first [reflexivity | vm_compute; reflexivity | left; reflexivity]. }
  eexists. split; [exact Hrun|].
  eapply (saved_stack_has_access_settings proxy0 (world_of stack_busy) 0%nat
            stack_busy "s"); [reflexivity | vm_compute; reflexivity | exact Hrun].
Defined.

Lemma save_then_load_context_witness :
  ∃ w1 c' w2,
    save_context proxy_dup (Some 0%nat) (world_of ctx_dup) = (Ok (), w1) ∧
    load_context proxy_dup "i1" w1 = (Ok c', w2) ∧
    heap w2 !! c' ≫= (.!! "state") = Some (VState stateA).
Proof.
  destruct (save_then_load_context proxy_dup (world_of ctx_dup) 0%nat ctx_dup
              "i1" stateA2) as (w1 & Hsave & _ & Hok);
    [reflexivity | vm_compute; reflexivity | vm_compute; reflexivity |].
  destruct (Hok stateA) as (_ & c' & w2 & Hload & Hc'); [vm_compute; reflexivity|].
  exists w1, c', w2. split; [done|]. split; [done|].
  rewrite Hc'. apply lookup_insert_eq.
Defined.
